(** * The visitor example of 8_SOLID.CPP

    The executable part of the file is the visitor pattern over the closed
    hierarchy [Animal] / [Cat] / [Dog] (lines 61-114): the interface
    [AnimalVisitor], the two [accept] overrides, the concrete visitor
    [LifeSpanVisitor] and the driver [exUseVisitor].

    C++ objects live in a store.  An [int] object is a cell of [ints]; an
    object of the [Animal] hierarchy is a cell of [objs] holding its dynamic
    type, which is all the state a [Cat] or a [Dog] has in the source.  A
    reference or pointer is the address of a cell.  Using an address whose
    cell is gone is undefined behaviour in C++ and is an error ([None])
    here.  More generally a call that does not return normally, because an
    exception leaves it, is [None] as well. *)

From stdpp Require Import gmap strings pretty.

Local Open Scope Z_scope.

(** ** Store *)

Abbreviation loc := positive.

(** The dynamic type of an object whose static type is [Animal].  [Animal]
    itself is abstract ([accept] is pure virtual, line 81), so the only
    objects there are have type [Cat] (lines 83-88) or [Dog] (lines 89-94). *)
Inductive Animal : Set := Cat | Dog.

#[global] Instance Animal_eq_dec : EqDecision Animal.
Proof. solve_decision. Defined.

(** [journal] lists the assignments to [int] objects in program order and
    [cout] the characters written to [std::cout]. *)
Record state : Type := mkState {
  ints : gmap loc Z;
  objs : gmap loc Animal;
  cout : string;
  journal : list (loc * Z)
}.

(** The store after the cell [r] has been assigned [v]. *)
Definition assigned (r : loc) (v : Z) (s : state) : state :=
  {| ints := <[r := v]> (ints s);
     objs := objs s;
     cout := cout s;
     journal := journal s ++ [(r, v)] |}.

(** Assignment [r = v] through a reference [r] to an [int]. *)
Definition store_int (r : loc) (v : Z) (s : state) : option state :=
  match ints s !! r with
  | Some _ => Some (assigned r v s)
  | None => None
  end.

(** ** Running code: a store together with the dispatch record

    [calls] records every entry into a handler of a visitor, in the order of
    the entries: which overload was entered and on which object. *)
Record config : Type := mkConfig {
  st : state;
  calls : list (Animal * loc)
}.

Definition M (A : Type) : Type := config → option (A * config).

Definition ret {A} (a : A) : M A := λ c, Some (a, c).

Definition bind {A B} (m : M A) (f : A → M B) : M B :=
  λ c, match m c with
       | Some (a, c') => f a c'
       | None => None
       end.

(** [throw e;] with nothing to catch it. *)
Definition throw {A} : M A := λ _, None.

Declare Scope cpp_scope.
Delimit Scope cpp_scope with cpp.
Notation "x <- m1 ;; m2" := (bind m1 (λ x, m2))
  (at level 100, m1 at next level, right associativity) : cpp_scope.
Notation "m1 ;; m2" := (bind m1 (λ _, m2))
  (at level 100, right associativity) : cpp_scope.

(** A step that acts on the store only. *)
Definition on_store (f : state → option state) : M unit :=
  λ c, match f (st c) with
       | Some s' => Some (tt, {| st := s'; calls := calls c |})
       | None => None
       end.

(** A step that reads the store. *)
Definition read_store {A} (f : state → option A) : M A :=
  λ c, match f (st c) with
       | Some a => Some (a, c)
       | None => None
       end.

(** ** The visitor interface (lines 73-76)

    [visit] is overloaded on the static type of its argument; the two
    overloads are the two methods of the class.  A handler receives the
    visitor (it is a [const] method, so the visitor itself is a value) and a
    reference to the visited object.  Its body is code like any other: it
    may fail, and it may call further handlers. *)
Class AnimalVisitor (V : Type) : Type := {
  visit_Cat : V → loc → M unit;
  visit_Dog : V → loc → M unit
}.

(** The overload of [visit] that belongs to a dynamic type. *)
Definition handler `{AnimalVisitor V} (k : Animal) : V → loc → M unit :=
  match k with
  | Cat => visit_Cat
  | Dog => visit_Dog
  end.

(** Control enters the overload for [k] with the object [x]. *)
Definition enter (k : Animal) (x : loc) : M unit :=
  λ c, Some (tt, {| st := st c; calls := calls c ++ [(k, x)] |}).

(** The call [av.visit(x)] with [x] of static type [Cat&], respectively
    [Dog&]: the overload is chosen by that static type. *)
Definition call_visit_Cat `{AnimalVisitor V} (av : V) (x : loc) : M unit :=
  (enter Cat x ;; visit_Cat av x)%cpp.

Definition call_visit_Dog `{AnimalVisitor V} (av : V) (x : loc) : M unit :=
  (enter Dog x ;; visit_Dog av x)%cpp.

(** ** The variant hierarchy (lines 79-94) *)

(** [Cat::accept]: [av.visit( *this )] where [*this] is a [Cat&]. *)
Definition Cat_accept `{AnimalVisitor V} (this : loc) (av : V) : M unit :=
  call_visit_Cat av this.

(** [Dog::accept]: [av.visit( *this )] where [*this] is a [Dog&]. *)
Definition Dog_accept `{AnimalVisitor V} (this : loc) (av : V) : M unit :=
  call_visit_Dog av this.

(** The virtual call [a.accept(av)] / [a->accept(av)] on a handle of static
    type [Animal]: the final overrider is looked up from the dynamic type of
    the object.  [Animal::accept] is pure, so there is no third case. *)
Definition accept `{AnimalVisitor V} (a : loc) (av : V) : M unit :=
  λ c, match objs (st c) !! a with
       | Some Cat => Cat_accept a av c
       | Some Dog => Dog_accept a av c
       | None => None
       end.

(** ** The concrete visitor (lines 97-102) *)

(** The only member is the reference [int &i], bound by the constructor. *)
Record LifeSpanVisitor : Type := mkLifeSpanVisitor { i : loc }.

#[global] Instance LifeSpanVisitor_visit : AnimalVisitor LifeSpanVisitor := {
  visit_Cat this _ := on_store (store_int (i this) 10);
  visit_Dog this _ := on_store (store_int (i this) 13)
}.

(** ** The driver (lines 109-114) *)

(** [int years{v};] a new [int] object. *)
Definition new_int (v : Z) : M loc :=
  λ c, let s := st c in
       let l := fresh (dom (ints s)) in
       Some (l, {| st := {| ints := <[l := v]> (ints s); objs := objs s;
                            cout := cout s; journal := journal s |};
                   calls := calls c |}).

(** [make_unique<T>()] for a class [T] of the hierarchy; the result is held
    as [unique_ptr<Animal>]. *)
Definition make_unique (k : Animal) : M loc :=
  λ c, let s := st c in
       let l := fresh (dom (objs s)) in
       Some (l, {| st := {| ints := ints s; objs := <[l := k]> (objs s);
                            cout := cout s; journal := journal s |};
                   calls := calls c |}).

(** Reading an [int] through its name or a reference. *)
Definition load_int (r : loc) : M Z := read_store (λ s, ints s !! r).

(** [std::cout << s] and [std::cout << n]. *)
Definition put (t : string) (s : state) : option state :=
  Some {| ints := ints s; objs := objs s; cout := cout s +:+ t;
          journal := journal s |}.

Definition cout_str (t : string) : M unit := on_store (put t).
Definition cout_int (n : Z) : M unit := on_store (put (pretty n)).

(** End of scope: the [unique_ptr] releases its object, the local [int]
    goes away. *)
Definition release_obj (a : loc) (s : state) : option state :=
  match objs s !! a with
  | Some _ => Some {| ints := ints s; objs := delete a (objs s);
                      cout := cout s; journal := journal s |}
  | None => None
  end.

Definition release_int (r : loc) (s : state) : option state :=
  match ints s !! r with
  | Some _ => Some {| ints := delete r (ints s); objs := objs s;
                      cout := cout s; journal := journal s |}
  | None => None
  end.

(** The body of [exUseVisitor] with the initial value of [years] left
    open; the source has [10] there. *)
Definition exUseVisitor_from (years0 : Z) : M unit :=
  (years <- new_int years0 ;;
   a <- make_unique Cat ;;
   accept a (mkLifeSpanVisitor years) ;;
   y <- load_int years ;;
   cout_str "lives " ;;
   cout_int y ;;
   on_store (release_obj a) ;;
   on_store (release_int years))%cpp.

Definition exUseVisitor : M unit := exUseVisitor_from 10.

(** ** Vocabulary of the statements *)

(** The constant mapping of the description: "Cat" to 10, "Dog" to 13. *)
Definition spec_lifespan (k : Animal) : Z :=
  match k with
  | Cat => 10
  | Dog => 13
  end.

(** The configuration [c] with the cell [r] holding [v] from the start
    (an initial value, not an assignment of the program). *)
Definition with_int (r : loc) (v : Z) (c : config) : config :=
  {| st := {| ints := <[r := v]> (ints (st c)); objs := objs (st c);
              cout := cout (st c); journal := journal (st c) |};
     calls := calls c |}.

(** The store [s] with another population of [Animal] objects. *)
Definition with_objs (o : gmap loc Animal) (s : state) : state :=
  {| ints := ints s; objs := o; cout := cout s; journal := journal s |}.

(** What [exUseVisitor] leaves behind when started in [c]. *)
Definition after_exUseVisitor (c : config) : config :=
  {| st := {| ints := ints (st c);
              objs := objs (st c);
              cout := cout (st c) +:+ "lives 10";
              journal := journal (st c) ++ [(fresh (dom (ints (st c))), 10)] |};
     calls := calls c ++ [(Cat, fresh (dom (objs (st c))))] |}.

(** A small populated store: an [int] at 1 holding 7, a second [int] at 2
    holding 0, a [Cat] at 1 and a [Dog] at 2. *)
Definition zoo_state : state :=
  {| ints := <[1%positive := 7]> (<[2%positive := 0]> ∅);
     objs := <[1%positive := Cat]> (<[2%positive := Dog]> ∅);
     cout := "";
     journal := [] |}.

Definition zoo : config := {| st := zoo_state; calls := [] |}.

Definition empty_config : config :=
  {| st := {| ints := ∅; objs := ∅; cout := ""; journal := [] |};
     calls := [] |}.

(** The interface is open to implementations the file does not contain.
    The simplest one that does not return: a visitor with no members whose
    two overloads are [{ throw 0; }]. *)
Inductive ThrowingVisitor : Type := mkThrowingVisitor.

#[global] Instance ThrowingVisitor_visit : AnimalVisitor ThrowingVisitor := {
  visit_Cat _ _ := throw;
  visit_Dog _ _ := throw
}.

(** * Properties *)

(** ** Basic facts about the store and the dispatch *)

Lemma store_int_live r v v0 s :
  ints s !! r = Some v0 → store_int r v s = Some (assigned r v s).
Proof. unfold store_int. by intros ->. Qed.

Lemma store_int_dangling r v s :
  ints s !! r = None → store_int r v s = None.
Proof. unfold store_int. by intros ->. Qed.

Lemma handler_LifeSpanVisitor k (av : LifeSpanVisitor) x :
  handler k av x = on_store (store_int (i av) (spec_lifespan k)).
Proof. by destruct k. Qed.

Lemma handler_LifeSpanVisitor_live k r x v0 c :
  ints (st c) !! r = Some v0 →
  handler k (mkLifeSpanVisitor r) x c
  = Some (tt, {| st := assigned r (spec_lifespan k) (st c);
                 calls := calls c |}).
Proof.
  intros Hr. rewrite handler_LifeSpanVisitor. unfold on_store. simpl.
  by rewrite (store_int_live _ _ _ _ Hr).
Qed.

Lemma accept_dynamic `{AnimalVisitor V} (av : V) a k c :
  objs (st c) !! a = Some k →
  accept a av c
  = handler k av a {| st := st c; calls := calls c ++ [(k, a)] |}.
Proof. unfold accept. intros ->. by destruct k. Qed.

Lemma accept_LifeSpanVisitor a r k v0 c :
  objs (st c) !! a = Some k →
  ints (st c) !! r = Some v0 →
  accept a (mkLifeSpanVisitor r) c
  = Some (tt, {| st := assigned r (spec_lifespan k) (st c);
                 calls := calls c ++ [(k, a)] |}).
Proof.
  intros Ha Hr. rewrite (accept_dynamic _ _ _ _ Ha).
  by rewrite (handler_LifeSpanVisitor_live k r a v0).
Qed.

Lemma string_app_assoc (a b c : string) : (a +:+ b) +:+ c = a +:+ (b +:+ c).
Proof.
  induction a as [| x a IH]; [done |].
  change (String x ((a +:+ b) +:+ c) = String x (a +:+ (b +:+ c))).
  by rewrite IH.
Qed.

Lemma exUseVisitor_from_run years0 c :
  exUseVisitor_from years0 c = Some (tt, after_exUseVisitor c).
Proof.
  destruct c as [s tr]. unfold exUseVisitor_from, bind, new_int, make_unique. simpl.
  set (ly := fresh (dom (ints s))). set (la := fresh (dom (objs s))).
  assert (Hly : ints s !! ly = None) by apply not_elem_of_dom, is_fresh.
  assert (Hla : objs s !! la = None) by apply not_elem_of_dom, is_fresh.
  erewrite accept_LifeSpanVisitor; simpl; [| apply lookup_insert_eq ..].
  unfold load_int, read_store, cout_str, cout_int, on_store. simpl.
  rewrite lookup_insert_eq. simpl.
  unfold release_obj, release_int. simpl.
  rewrite !lookup_insert_eq. simpl. rewrite !lookup_insert_eq. simpl.
  unfold after_exUseVisitor. simpl. fold ly la.
  rewrite insert_insert_eq, !delete_insert_id by done.
  by rewrite string_app_assoc.
Qed.

(** ** The code on concrete stores *)

Example exUseVisitor_on_empty :
  exUseVisitor empty_config
  = Some (tt, {| st := {| ints := ∅; objs := ∅; cout := "lives 10";
                          journal := [(1%positive, 10)] |};
                 calls := [(Cat, 1%positive)] |}).
Proof. vm_compute. reflexivity. Qed.

Example accept_Dog_in_zoo :
  (λ p, (ints (st p.2) !! 1%positive, ints (st p.2) !! 2%positive, calls p.2))
    <$> accept 2%positive (mkLifeSpanVisitor 1) zoo
  = Some (Some 13, Some 0, [(Dog, 2%positive)]).
Proof. vm_compute. reflexivity. Qed.

Example accept_Cat_in_zoo :
  (λ p, (ints (st p.2) !! 1%positive, ints (st p.2) !! 2%positive, calls p.2))
    <$> accept 1%positive (mkLifeSpanVisitor 2) zoo
  = Some (Some 7, Some 10, [(Cat, 1%positive)]).
Proof. vm_compute. reflexivity. Qed.

Example accept_without_object :
  accept 3%positive (mkLifeSpanVisitor 1) zoo = None.
Proof. vm_compute. reflexivity. Qed.

Example accept_with_dangling_reference :
  accept 1%positive (mkLifeSpanVisitor 3) zoo = None.
Proof. vm_compute. reflexivity. Qed.

(** ** Dispatch *)

(** C1. For every visitor [av] and every object [a] of dynamic type [k],
    [a.accept(av)] is one call of the handler of [av] for [k], on [a]
    itself, and nothing else: control enters that handler once, and what
    the handler does from there, returning or not, is what [accept] does.
    An override called directly on an object of its own class behaves the
    same.  When the handler makes no further handler calls, the dispatch
    record has grown by the single entry [(k, a)] when [accept] returns; the
    visitor's handler for the other type plays no part; and with a
    [LifeSpanVisitor] the value that arrives in the output cell is the one
    of the handler for [k]. *)
Theorem accept_invokes_exactly_own_handler
  (V : Type) (H : AnimalVisitor V) (av : V) (a : loc) (k : Animal) (c : config) :
  objs (st c) !! a = Some k →
  accept a av c
  = handler k av a {| st := st c; calls := calls c ++ [(k, a)] |} ∧
  (∀ c', handler k av a {| st := st c; calls := calls c ++ [(k, a)] |}
         = Some (tt, c') →
         accept a av c = Some (tt, c')) ∧
  (k = Cat →
   Cat_accept a av c
   = visit_Cat av a {| st := st c; calls := calls c ++ [(Cat, a)] |}) ∧
  (k = Dog →
   Dog_accept a av c
   = visit_Dog av a {| st := st c; calls := calls c ++ [(Dog, a)] |}) ∧
  ((∀ c0 c1, handler k av a c0 = Some (tt, c1) → calls c1 = calls c0) →
   ∀ c', accept a av c = Some (tt, c') → calls c' = calls c ++ [(k, a)]) ∧
  (∀ H' : AnimalVisitor V,
     @handler V H' k = @handler V H k →
     @accept V H' a av c = @accept V H a av c) ∧
  (∀ (r : loc) (v0 : Z),
     ints (st c) !! r = Some v0 →
     ∃ c', accept a (mkLifeSpanVisitor r) c = Some (tt, c') ∧
           calls c' = calls c ++ [(k, a)] ∧
           ints (st c') !! r = Some (match k with Cat => 10 | Dog => 13 end)).
Proof.
  intros Ha. split_and!.
  - by apply accept_dynamic.
  - intros c' Hc'. by rewrite (accept_dynamic _ _ _ _ Ha).
  - done.
  - done.
  - intros Hkeep c'. rewrite (accept_dynamic _ _ _ _ Ha). intros Hc'.
    by rewrite (Hkeep _ _ Hc').
  - intros H' Heq. rewrite !(accept_dynamic _ _ _ _ Ha). by rewrite Heq.
  - intros r v0 Hr. eexists. split_and!.
    + by apply (accept_LifeSpanVisitor _ _ k v0).
    + done.
    + simpl. rewrite lookup_insert_eq. by destruct k.
Qed.

Lemma accept_invokes_exactly_own_handler_witness :
  objs (st zoo) !! 2%positive = Some Dog ∧
  accept 2%positive (mkLifeSpanVisitor 1) zoo
  = handler Dog (mkLifeSpanVisitor 1) 2%positive
      {| st := st zoo; calls := calls zoo ++ [(Dog, 2%positive)] |}.
Proof.
  split; [reflexivity |].
  refine (proj1 (accept_invokes_exactly_own_handler
                   LifeSpanVisitor _ (mkLifeSpanVisitor 1) 2%positive Dog zoo _)).
  reflexivity.
Defined.

(** C4. A handle of static type [Animal] carries no type of its own: the
    call [a->accept(av)] runs [Cat::accept] when the object behind the
    handle is a [Cat] and [Dog::accept] when it is a [Dog], so the same
    handle dispatches differently in two stores that differ in the object's
    dynamic type.  In particular [exUseVisitor], which holds a [Cat] as
    [unique_ptr<Animal>], returns normally from every configuration, enters
    the [Cat] handler once, assigns 10 to [years] and prints "lives 10". *)
Theorem accept_dispatch_is_dynamic
  (V : Type) (H : AnimalVisitor V) (av : V) (a : loc) (k : Animal) (c : config) :
  objs (st c) !! a = Some k →
  accept a av c
  = match k with
    | Cat => Cat_accept a av c
    | Dog => Dog_accept a av c
    end
  ∧ (∀ c1 c2 : config,
       objs (st c1) !! a = Some Cat → objs (st c2) !! a = Some Dog →
       accept a av c1
       = visit_Cat av a {| st := st c1; calls := calls c1 ++ [(Cat, a)] |} ∧
       accept a av c2
       = visit_Dog av a {| st := st c2; calls := calls c2 ++ [(Dog, a)] |})
  ∧ (∀ c0 : config,
       ∃ c', exUseVisitor c0 = Some (tt, c') ∧
             cout (st c') = cout (st c0) +:+ "lives 10" ∧
             journal (st c')
             = journal (st c0) ++ [(fresh (dom (ints (st c0))), 10)] ∧
             calls c' = calls c0 ++ [(Cat, fresh (dom (objs (st c0))))]).
Proof.
  intros Ha. split_and!.
  - unfold accept. rewrite Ha. by destruct k.
  - intros c1 c2 H1 H2.
    by rewrite (accept_dynamic _ _ _ _ H1), (accept_dynamic _ _ _ _ H2).
  - intros c0. exists (after_exUseVisitor c0).
    unfold exUseVisitor. by rewrite exUseVisitor_from_run.
Qed.

Lemma accept_dispatch_is_dynamic_witness :
  objs (st zoo) !! 1%positive = Some Cat ∧
  accept 1%positive (mkLifeSpanVisitor 2) zoo
  = Cat_accept 1%positive (mkLifeSpanVisitor 2) zoo.
Proof.
  split; [reflexivity |].
  apply (accept_dispatch_is_dynamic
           LifeSpanVisitor _ (mkLifeSpanVisitor 2) 1%positive Cat zoo).
  reflexivity.
Defined.

(** ** The lifespan visitor *)

(** C2. When a [Cat] is visited by a [LifeSpanVisitor] bound to a live
    [int], whether through [Cat::accept] directly or through the virtual
    call, [accept] returns and the [int] then holds 10. *)
Theorem Cat_LifeSpanVisitor_yields_10 (a r : loc) (v0 : Z) (c : config) :
  objs (st c) !! a = Some Cat →
  ints (st c) !! r = Some v0 →
  ∃ c', accept a (mkLifeSpanVisitor r) c = Some (tt, c') ∧
        Cat_accept a (mkLifeSpanVisitor r) c = Some (tt, c') ∧
        ints (st c') !! r = Some 10.
Proof.
  intros Ha Hr. eexists. split_and!.
  - by apply (accept_LifeSpanVisitor _ _ Cat v0).
  - unfold Cat_accept, call_visit_Cat, bind, enter. simpl.
    by apply (handler_LifeSpanVisitor_live Cat r a v0).
  - simpl. apply lookup_insert_eq.
Qed.

Lemma Cat_LifeSpanVisitor_yields_10_witness :
  ∃ c', accept 1%positive (mkLifeSpanVisitor 1) zoo = Some (tt, c') ∧
        Cat_accept 1%positive (mkLifeSpanVisitor 1) zoo = Some (tt, c') ∧
        ints (st c') !! 1%positive = Some 10.
Proof.
  apply (Cat_LifeSpanVisitor_yields_10 1 1 7 zoo); reflexivity.
Defined.

(** C3. When a [Dog] is visited by a [LifeSpanVisitor] bound to a live
    [int], whether through [Dog::accept] directly or through the virtual
    call, [accept] returns and the [int] then holds 13. *)
Theorem Dog_LifeSpanVisitor_yields_13 (a r : loc) (v0 : Z) (c : config) :
  objs (st c) !! a = Some Dog →
  ints (st c) !! r = Some v0 →
  ∃ c', accept a (mkLifeSpanVisitor r) c = Some (tt, c') ∧
        Dog_accept a (mkLifeSpanVisitor r) c = Some (tt, c') ∧
        ints (st c') !! r = Some 13.
Proof.
  intros Ha Hr. eexists. split_and!.
  - by apply (accept_LifeSpanVisitor _ _ Dog v0).
  - unfold Dog_accept, call_visit_Dog, bind, enter. simpl.
    by apply (handler_LifeSpanVisitor_live Dog r a v0).
  - simpl. apply lookup_insert_eq.
Qed.

Lemma Dog_LifeSpanVisitor_yields_13_witness :
  ∃ c', accept 2%positive (mkLifeSpanVisitor 1) zoo = Some (tt, c') ∧
        Dog_accept 2%positive (mkLifeSpanVisitor 1) zoo = Some (tt, c') ∧
        ints (st c') !! 1%positive = Some 13.
Proof.
  apply (Dog_LifeSpanVisitor_yields_13 2 1 7 zoo); reflexivity.
Defined.

(** C5. Two invocations of [accept] with [LifeSpanVisitor]s on objects of
    the same dynamic type deliver the same value, whatever the two stores,
    the two objects and the two output cells are (the cells may coincide);
    and a second invocation right after the first, on the same object and
    cell, returns again and leaves every [int] as the first left it. *)
Theorem LifeSpanVisitor_accept_repeatable
  (k : Animal) (a1 a2 r1 r2 : loc) (v1 v2 : Z) (c1 c2 : config) :
  objs (st c1) !! a1 = Some k →
  objs (st c2) !! a2 = Some k →
  ints (st c1) !! r1 = Some v1 →
  ints (st c2) !! r2 = Some v2 →
  ∃ c1' c2' c1'',
    accept a1 (mkLifeSpanVisitor r1) c1 = Some (tt, c1') ∧
    accept a2 (mkLifeSpanVisitor r2) c2 = Some (tt, c2') ∧
    ints (st c1') !! r1 = ints (st c2') !! r2 ∧
    ints (st c1') !! r1 = Some (spec_lifespan k) ∧
    accept a1 (mkLifeSpanVisitor r1) c1' = Some (tt, c1'') ∧
    ints (st c1'') = ints (st c1').
Proof.
  intros Ha1 Ha2 Hr1 Hr2. eexists _, _, _. split_and!.
  - by apply (accept_LifeSpanVisitor _ _ k v1).
  - by apply (accept_LifeSpanVisitor _ _ k v2).
  - simpl. by rewrite !lookup_insert_eq.
  - simpl. apply lookup_insert_eq.
  - apply (accept_LifeSpanVisitor _ _ k (spec_lifespan k)); simpl;
      [done | apply lookup_insert_eq].
  - simpl. apply insert_insert_eq.
Qed.

Lemma LifeSpanVisitor_accept_repeatable_witness :
  ∃ c1' c2' c1'',
    accept 2%positive (mkLifeSpanVisitor 1) zoo = Some (tt, c1') ∧
    accept 2%positive (mkLifeSpanVisitor 2) zoo = Some (tt, c2') ∧
    ints (st c1') !! 1%positive = ints (st c2') !! 2%positive ∧
    ints (st c1') !! 1%positive = Some (spec_lifespan Dog) ∧
    accept 2%positive (mkLifeSpanVisitor 1) c1' = Some (tt, c1'') ∧
    ints (st c1'') = ints (st c1').
Proof.
  apply (LifeSpanVisitor_accept_repeatable Dog 2 2 1 2 7 0 zoo zoo);
    reflexivity.
Defined.

(** C6. One invocation of a handler of [LifeSpanVisitor], called directly
    or reached through [accept], performs exactly one assignment: the cell
    the visitor is bound to receives the value for the visited type, and
    that is the only assignment made.  Nothing else changes: every other
    [int] keeps its value, no [int] appears or disappears, the [Animal]
    objects and the output stream are as before. *)
Theorem LifeSpanVisitor_visit_writes_once
  (k : Animal) (a r : loc) (v0 : Z) (c : config) :
  objs (st c) !! a = Some k →
  ints (st c) !! r = Some v0 →
  ∃ c',
    handler k (mkLifeSpanVisitor r) a c
    = Some (tt, {| st := st c'; calls := calls c |}) ∧
    accept a (mkLifeSpanVisitor r) c = Some (tt, c') ∧
    ints (st c') !! r = Some (spec_lifespan k) ∧
    ints (st c') = <[r := spec_lifespan k]> (ints (st c)) ∧
    journal (st c') = journal (st c) ++ [(r, spec_lifespan k)] ∧
    (∀ l, l ≠ r → ints (st c') !! l = ints (st c) !! l) ∧
    dom (ints (st c')) = dom (ints (st c)) ∧
    objs (st c') = objs (st c) ∧
    cout (st c') = cout (st c).
Proof.
  intros Ha Hr. eexists. split_and!.
  2: by apply (accept_LifeSpanVisitor _ _ k v0).
  - by apply (handler_LifeSpanVisitor_live k r a v0).
  - simpl. apply lookup_insert_eq.
  - done.
  - done.
  - intros l Hl. simpl. by apply lookup_insert_ne.
  - simpl. apply dom_insert_lookup_L. eauto.
  - done.
  - done.
Qed.

Lemma LifeSpanVisitor_visit_writes_once_witness :
  ∃ c',
    handler Cat (mkLifeSpanVisitor 2) 1%positive zoo
    = Some (tt, {| st := st c'; calls := calls zoo |}) ∧
    accept 1%positive (mkLifeSpanVisitor 2) zoo = Some (tt, c') ∧
    ints (st c') !! 2%positive = Some (spec_lifespan Cat) ∧
    ints (st c') = <[2%positive := spec_lifespan Cat]> (ints (st zoo)) ∧
    journal (st c') = journal (st zoo) ++ [(2%positive, spec_lifespan Cat)] ∧
    (∀ l, l ≠ 2%positive → ints (st c') !! l = ints (st zoo) !! l) ∧
    dom (ints (st c')) = dom (ints (st zoo)) ∧
    objs (st c') = objs (st zoo) ∧
    cout (st c') = cout (st zoo).
Proof.
  apply (LifeSpanVisitor_visit_writes_once Cat 1 2 0 zoo); reflexivity.
Defined.




(** C9. The value delivered by a [LifeSpanVisitor] does not depend on what
    the output cell held before: started with [v1] or with [v2] in the cell,
    [accept] on an object of the same dynamic type ends in the very same
    configuration, with the constant for that type in the cell.  In
    particular [exUseVisitor] behaves the same whatever [years] is
    initialised with; its 10 is the one assigned by the [Cat] handler. *)
Theorem LifeSpanVisitor_output_ignores_initial_value
  (k : Animal) (a r : loc) (v1 v2 : Z) (c : config) :
  objs (st c) !! a = Some k →
  (∃ c',
     accept a (mkLifeSpanVisitor r) (with_int r v1 c) = Some (tt, c') ∧
     accept a (mkLifeSpanVisitor r) (with_int r v2 c) = Some (tt, c') ∧
     ints (st c') !! r = Some (spec_lifespan k)) ∧
  (∀ (years0 : Z) (c0 : config),
     exUseVisitor_from years0 c0 = exUseVisitor c0 ∧
     ∃ c', exUseVisitor_from years0 c0 = Some (tt, c') ∧
           cout (st c') = cout (st c0) +:+ "lives 10" ∧
           journal (st c')
           = journal (st c0) ++ [(fresh (dom (ints (st c0))), 10)] ∧
           calls c' = calls c0 ++ [(Cat, fresh (dom (objs (st c0))))]).
Proof.
  intros Ha. split.
  - exists {| st := assigned r (spec_lifespan k) (st c);
              calls := calls c ++ [(k, a)] |}.
    split_and!.
    + rewrite (accept_LifeSpanVisitor a r k v1); simpl;
        [| done | apply lookup_insert_eq].
      unfold assigned. simpl. by rewrite insert_insert_eq.
    + rewrite (accept_LifeSpanVisitor a r k v2); simpl;
        [| done | apply lookup_insert_eq].
      unfold assigned. simpl. by rewrite insert_insert_eq.
    + simpl. apply lookup_insert_eq.
  - intros years0 c0. unfold exUseVisitor. rewrite !exUseVisitor_from_run.
    split; [done |]. by exists (after_exUseVisitor c0).
Qed.

Lemma LifeSpanVisitor_output_ignores_initial_value_witness :
  ∃ c',
    accept 1%positive (mkLifeSpanVisitor 2) (with_int 2 10 zoo) = Some (tt, c') ∧
    accept 1%positive (mkLifeSpanVisitor 2) (with_int 2 99 zoo) = Some (tt, c') ∧
    ints (st c') !! 2%positive = Some (spec_lifespan Cat).
Proof.
  apply (LifeSpanVisitor_output_ignores_initial_value Cat 1 2 10 99 zoo).
  reflexivity.
Defined.

(** C10. Accepting a [LifeSpanVisitor] leaves the visited object, and every
    other [Animal] object, as it was.  The handlers do not look at the
    object they are handed: they act the same on any other object, and they
    act the same, and leave the objects alone, whatever the population of
    [Animal] objects is. *)
Theorem accept_leaves_variant_unchanged
  (k : Animal) (a r : loc) (v0 : Z) (c : config) :
  objs (st c) !! a = Some k →
  ints (st c) !! r = Some v0 →
  (∃ c', accept a (mkLifeSpanVisitor r) c = Some (tt, c') ∧
         objs (st c') = objs (st c) ∧
         objs (st c') !! a = Some k) ∧
  (∀ (x x' : loc) (c0 : config),
     handler k (mkLifeSpanVisitor r) x c0
     = handler k (mkLifeSpanVisitor r) x' c0) ∧
  (∀ (o : gmap loc Animal) (x : loc) (c0 : config),
     handler k (mkLifeSpanVisitor r) x
       {| st := with_objs o (st c0); calls := calls c0 |}
     = (λ p, (p.1, {| st := with_objs o (st p.2); calls := calls p.2 |}))
         <$> handler k (mkLifeSpanVisitor r) x c0).
Proof.
  intros Ha Hr. split_and!.
  - eexists. split_and!; [by apply (accept_LifeSpanVisitor _ _ k v0) | done ..].
  - intros x x' c0. by rewrite !handler_LifeSpanVisitor.
  - intros o x c0. rewrite !handler_LifeSpanVisitor.
    unfold on_store, store_int. simpl.
    by destruct (ints (st c0) !! r).
Qed.

Lemma accept_leaves_variant_unchanged_witness :
  ∃ c', accept 2%positive (mkLifeSpanVisitor 1) zoo = Some (tt, c') ∧
        objs (st c') = objs (st zoo) ∧
        objs (st c') !! 2%positive = Some Dog.
Proof.
  apply (accept_leaves_variant_unchanged Dog 2 1 7 zoo); reflexivity.
Defined.

(** ** The interface and the hierarchy *)

(** An implementation of [AnimalVisitor] is one handler for [Cat] and one
    for [Dog], no more and no less: any choice of a handler per dynamic type
    is the handler table of exactly one implementation. *)
Lemma AnimalVisitor_one_handler_per_kind
  (V : Type) (f : Animal → V → loc → M unit) :
  ∃ H : AnimalVisitor V,
    (∀ k, @handler V H k = f k) ∧
    (∀ H' : AnimalVisitor V, (∀ k, @handler V H' k = f k) → H' = H).
Proof.
  exists {| visit_Cat := f Cat; visit_Dog := f Dog |}. split.
  - by intros [].
  - intros [hc hd] Hf.
    pose proof (Hf Cat) as HC. pose proof (Hf Dog) as HD. simpl in HC, HD.
    by subst.
Qed.

(** ** Several visits in a row *)

(** X1. Two visits through the same output cell, one after the other: both
    return, the cell ends with the value for the object visited last, the
    two assignments and the two handler entries are recorded in program
    order, and no other [int] is touched. *)
Theorem accept_twice_same_cell_last_wins
  (k1 k2 : Animal) (a1 a2 r : loc) (v0 : Z) (c : config) :
  objs (st c) !! a1 = Some k1 →
  objs (st c) !! a2 = Some k2 →
  ints (st c) !! r = Some v0 →
  ∃ c',
    (accept a1 (mkLifeSpanVisitor r) ;; accept a2 (mkLifeSpanVisitor r))%cpp c
    = Some (tt, c') ∧
    ints (st c') = <[r := spec_lifespan k2]> (ints (st c)) ∧
    journal (st c')
    = journal (st c) ++ [(r, spec_lifespan k1); (r, spec_lifespan k2)] ∧
    calls c' = calls c ++ [(k1, a1); (k2, a2)] ∧
    objs (st c') = objs (st c) ∧
    cout (st c') = cout (st c).
Proof.
  intros H1 H2 Hr. eexists. split_and!.
  - unfold bind. rewrite (accept_LifeSpanVisitor a1 r k1 v0 c H1 Hr).
    apply (accept_LifeSpanVisitor a2 r k2 (spec_lifespan k1)); simpl;
      [done | apply lookup_insert_eq].
  - simpl. apply insert_insert_eq.
  - simpl. by rewrite <- app_assoc.
  - simpl. by rewrite <- app_assoc.
  - done.
  - done.
Qed.

Lemma accept_twice_same_cell_last_wins_witness :
  ∃ c',
    (accept 1%positive (mkLifeSpanVisitor 2) ;;
     accept 2%positive (mkLifeSpanVisitor 2))%cpp zoo
    = Some (tt, c') ∧
    ints (st c') = <[2%positive := spec_lifespan Dog]> (ints (st zoo)) ∧
    journal (st c')
    = journal (st zoo)
      ++ [(2%positive, spec_lifespan Cat); (2%positive, spec_lifespan Dog)] ∧
    calls c' = calls zoo ++ [(Cat, 1%positive); (Dog, 2%positive)] ∧
    objs (st c') = objs (st zoo) ∧
    cout (st c') = cout (st zoo).
Proof.
  apply (accept_twice_same_cell_last_wins Cat Dog 1 2 2 0 zoo); reflexivity.
Defined.



(** ** What the delivered value tells *)

(** X3. The value a [LifeSpanVisitor] delivers identifies the dynamic type
    of the visited object: two visits deliver equal values only for objects
    of the same type, and the value is 10 only for a [Cat] and 13 only for a
    [Dog]. *)
Theorem LifeSpanVisitor_value_identifies_kind
  (k1 k2 : Animal) (a1 a2 r1 r2 : loc) (v1 v2 : Z) (c1 c2 : config) :
  objs (st c1) !! a1 = Some k1 →
  objs (st c2) !! a2 = Some k2 →
  ints (st c1) !! r1 = Some v1 →
  ints (st c2) !! r2 = Some v2 →
  ∃ c1' c2',
    accept a1 (mkLifeSpanVisitor r1) c1 = Some (tt, c1') ∧
    accept a2 (mkLifeSpanVisitor r2) c2 = Some (tt, c2') ∧
    (ints (st c1') !! r1 = ints (st c2') !! r2 ↔ k1 = k2) ∧
    (ints (st c1') !! r1 = Some 10 ↔ k1 = Cat) ∧
    (ints (st c1') !! r1 = Some 13 ↔ k1 = Dog).
Proof.
  intros H1 H2 Hr1 Hr2. eexists _, _. split_and!.
  - by apply (accept_LifeSpanVisitor _ _ k1 v1).
  - by apply (accept_LifeSpanVisitor _ _ k2 v2).
  - simpl. rewrite !lookup_insert_eq. by destruct k1, k2.
  - simpl. rewrite lookup_insert_eq. by destruct k1.
  - simpl. rewrite lookup_insert_eq. by destruct k1.
Qed.

Lemma LifeSpanVisitor_value_identifies_kind_witness :
  ∃ c1' c2',
    accept 1%positive (mkLifeSpanVisitor 1) zoo = Some (tt, c1') ∧
    accept 2%positive (mkLifeSpanVisitor 2) zoo = Some (tt, c2') ∧
    (ints (st c1') !! 1%positive = ints (st c2') !! 2%positive ↔ Cat = Dog) ∧
    (ints (st c1') !! 1%positive = Some 10 ↔ Cat = Cat) ∧
    (ints (st c1') !! 1%positive = Some 13 ↔ Cat = Dog).
Proof.
  apply (LifeSpanVisitor_value_identifies_kind Cat Dog 1 2 1 2 7 0 zoo zoo);
    reflexivity.
Defined.
